(** * PantryChef: the session state machine of [App] and the suggestion client

    A shallow embedding of the state-orchestration layer of the recipe
    front end: the nine [useState] cells of [App], its event handlers
    ([addIngredient], [removeIngredient], [findDishes],
    [loadMoreSuggestions], [showRecipe], [reset], the two back buttons),
    the request built by [getDishSuggestions], and the prompt and the
    sources of [getRecipeDetail].

    Modelling conventions.
    - A JavaScript string is a sequence of UTF-16 code units.
    - A handler that awaits a network call is split at the [await]: the
      part before it runs when the event fires and yields the request it
      issues; the part after it runs when the call settles, on the session
      as it is then.
    - The world pairs the session with the number of calls in flight of
      each kind; nothing in the source cancels a call.
    - [step] is the program when React has rendered, and run the effect,
      between any two events: every handler is then the one of the
      session as it is.  The observer of the sentinel keeps the
      [loadMoreSuggestions] of the render that created it until the effect
      runs again; [pageStep] keeps that render apart from the session, and
      [Render] is the moment the effect runs. *)

From Stdlib Require Import String Ascii NArith Bool Arith Lia List.
Import ListNotations.

(** ** JavaScript strings *)

Module JS.

Definition code_unit := N.
Definition jsstring := list code_unit.

(** A source literal (all literals of the program are ASCII). *)
Definition lit (s : string) : jsstring :=
  map N_of_ascii (list_ascii_of_string s).

Fixpoint str_eqb (a b : jsstring) : bool :=
  match a, b with
  | [], [] => true
  | x :: a', y :: b' => N.eqb x y && str_eqb a' b'
  | _, _ => false
  end.

(** ECMAScript WhiteSpace and LineTerminator code points, the ones
    [String.prototype.trim] strips. *)
Definition isWhiteSpace (c : code_unit) : bool :=
  (N.eqb c 9 || N.eqb c 10 || N.eqb c 11 || N.eqb c 12 || N.eqb c 13
   || N.eqb c 32 || N.eqb c 160 || N.eqb c 5760
   || (N.leb 8192 c && N.leb c 8202)
   || N.eqb c 8232 || N.eqb c 8233 || N.eqb c 8239 || N.eqb c 8287
   || N.eqb c 12288 || N.eqb c 65279)%N.

Fixpoint trimStart (s : jsstring) : jsstring :=
  match s with
  | [] => []
  | c :: r => if isWhiteSpace c then trimStart r else s
  end.

Definition trimEnd (s : jsstring) : jsstring := rev (trimStart (rev s)).

Definition trim (s : jsstring) : jsstring := trimEnd (trimStart s).

(** [Array.prototype.join]. *)
Fixpoint join (sep : jsstring) (l : list jsstring) : jsstring :=
  match l with
  | [] => []
  | [x] => x
  | x :: r => x ++ sep ++ join sep r
  end.

(** [String.prototype.split] with a one-unit separator: the pieces
    between the occurrences of [sep]; [cur] is the piece being read. *)
Fixpoint split_from (sep : code_unit) (cur : jsstring) (s : jsstring)
  : list jsstring :=
  match s with
  | [] => [rev cur]
  | c :: r => if N.eqb c sep then rev cur :: split_from sep [] r
              else split_from sep (c :: cur) r
  end.

Definition split (sep : code_unit) (s : jsstring) : list jsstring :=
  split_from sep [] s.

(** Truthiness of a [string | null | undefined] value: [null],
    [undefined] and the empty string are falsy. *)
Definition truthy (v : option jsstring) : bool :=
  match v with
  | Some (_ :: _) => true
  | _ => false
  end.

End JS.
Import JS.

(** ** types.ts *)

Module Ingredient.
Record t := mk { id : jsstring; name : jsstring }.
End Ingredient.

Inductive Difficulty := Easy | Medium | Hard.

Module DishSuggestion.
Record t := mk {
  id : jsstring;
  name : jsstring;
  description : jsstring;
  prepTime : jsstring;
  difficulty : Difficulty
}.
End DishSuggestion.

Module Alternative.
Record t := mk { name : jsstring; effect : jsstring }.
End Alternative.

Module Substitution.
Record t := mk { original : jsstring; alternatives : list Alternative.t }.
End Substitution.

Module Source.
Record t := mk { title : jsstring; uri : jsstring }.
End Source.

Module RecipeDetail.
Record t := mk {
  name : jsstring;
  ingredients : list jsstring;
  instructions : list jsstring;
  tips : list jsstring;
  substitutions : list Substitution.t;
  youtubeSearchUrl : option jsstring;
  sources : option (list Source.t)
}.
End RecipeDetail.

Inductive AppState := input | suggesting | results | loading_recipe | recipe.

Definition AppState_eqb (a b : AppState) : bool :=
  match a, b with
  | input, input | suggesting, suggesting | results, results
  | loading_recipe, loading_recipe | recipe, recipe => true
  | _, _ => false
  end.

(** ** services/geminiService.ts: the request of [getDishSuggestions] *)

Module GeminiService.

(** The arguments of one call. [base64Image] is [undefined] when absent;
    [excludeDishes] defaults to the empty array. *)
Record SuggestionCall := mkCall {
  call_ingredients : list jsstring;
  base64Image : option jsstring;
  excludeDishes : list jsstring
}.

Inductive Part :=
| Text (text : jsstring)
| InlineData (mimeType data : jsstring).

Definition suggestLine : jsstring :=
  lit ". Suggest 4 unique and delicious dishes I can cook.".

Definition excludeText (excludeDishes : list jsstring) : jsstring :=
  if 0 <? length excludeDishes
  then lit " DO NOT suggest any of these existing dishes: "
       ++ join (lit ", ") excludeDishes ++ lit "."
  else [].

Definition prompt (c : SuggestionCall) : jsstring :=
  lit "Based on these ingredients: "
  ++ join (lit ", ") (call_ingredients c)
  ++ suggestLine
  ++ excludeText (excludeDishes c)
  ++ lit " Focus on maximizing the use of these items. Provide output in JSON format.".

(** [contents]: the prompt, with the image put in front when there is one. *)
Definition contents (c : SuggestionCall) : list Part :=
  match base64Image c with
  | Some (u :: d) => [InlineData (lit "image/jpeg") (u :: d); Text (prompt c)]
  | _ => [Text (prompt c)]
  end.

End GeminiService.
Import GeminiService.

(** ** App.tsx: the session and its handlers *)

Module App.

(** The nine [useState] cells. *)
Record Session := mkSession {
  state : AppState;
  ingredients : list Ingredient.t;
  inputValue : jsstring;
  suggestions : list DishSuggestion.t;
  selectedRecipe : option RecipeDetail.t;
  error : option jsstring;
  capturedImage : option jsstring;
  isFetchingMore : bool;
  hasReachedEnd : bool
}.

(** The values the cells are created with. *)
Definition initial : Session :=
  mkSession input [] [] [] None None None false false.

Definition setState v s :=
  mkSession v (ingredients s) (inputValue s) (suggestions s)
    (selectedRecipe s) (error s) (capturedImage s) (isFetchingMore s)
    (hasReachedEnd s).
Definition setIngredients v s :=
  mkSession (state s) v (inputValue s) (suggestions s)
    (selectedRecipe s) (error s) (capturedImage s) (isFetchingMore s)
    (hasReachedEnd s).
Definition setInputValue v s :=
  mkSession (state s) (ingredients s) v (suggestions s)
    (selectedRecipe s) (error s) (capturedImage s) (isFetchingMore s)
    (hasReachedEnd s).
Definition setSuggestions v s :=
  mkSession (state s) (ingredients s) (inputValue s) v
    (selectedRecipe s) (error s) (capturedImage s) (isFetchingMore s)
    (hasReachedEnd s).
Definition setSelectedRecipe v s :=
  mkSession (state s) (ingredients s) (inputValue s) (suggestions s)
    v (error s) (capturedImage s) (isFetchingMore s) (hasReachedEnd s).
Definition setError v s :=
  mkSession (state s) (ingredients s) (inputValue s) (suggestions s)
    (selectedRecipe s) v (capturedImage s) (isFetchingMore s)
    (hasReachedEnd s).
Definition setCapturedImage v s :=
  mkSession (state s) (ingredients s) (inputValue s) (suggestions s)
    (selectedRecipe s) (error s) v (isFetchingMore s) (hasReachedEnd s).
Definition setIsFetchingMore v s :=
  mkSession (state s) (ingredients s) (inputValue s) (suggestions s)
    (selectedRecipe s) (error s) (capturedImage s) v (hasReachedEnd s).
Definition setHasReachedEnd v s :=
  mkSession (state s) (ingredients s) (inputValue s) (suggestions s)
    (selectedRecipe s) (error s) (capturedImage s) (isFetchingMore s) v.

(** Statements of a handler, in source order. *)
Notation "s |> f" := (f s) (at level 50, left associativity, only parsing).

(** How an awaited call settles. *)
Inductive Settled (A : Type) :=
| Fulfilled (value : A)
| Rejected.
Arguments Fulfilled {A} value.
Arguments Rejected {A}.

(** [addIngredient]; [uuid] is the value of [crypto.randomUUID()]. *)
Definition addIngredient (uuid : jsstring) (s : Session) : Session :=
  match trim (inputValue s) with
  | [] => s
  | _ :: _ =>
      s |> setIngredients
             (ingredients s ++ [Ingredient.mk uuid (trim (inputValue s))])
        |> setInputValue []
  end.

Definition removeIngredient (id : jsstring) (s : Session) : Session :=
  s |> setIngredients
         (filter (fun i => negb (str_eqb (Ingredient.id i) id))
            (ingredients s)).

(** [ingredients.map(i => i.name)] *)
Definition ingNames (s : Session) : list jsstring :=
  map Ingredient.name (ingredients s).

(** [capturedImage?.split(',')[1]] *)
Definition base64 (s : Session) : option jsstring :=
  match capturedImage s with
  | None => None
  | Some url => nth_error (split 44%N url) 1
  end.

Definition noInputMessage : jsstring :=
  lit "Please add at least one ingredient or a photo.".
Definition suggestionsFailedMessage : jsstring :=
  lit "Failed to get suggestions. Please check your API key.".
Definition detailFailedMessage : jsstring :=
  lit "Failed to fetch recipe details.".

(** [findDishes], up to its [await]: the new session and the call issued. *)
Definition findDishes (s : Session) : Session * option SuggestionCall :=
  if (length (ingredients s) =? 0) && negb (truthy (capturedImage s))
  then (s |> setError (Some noInputMessage), None)
  else (s |> setError None |> setState suggesting |> setHasReachedEnd false,
        Some (mkCall (ingNames s) (base64 s) [])).

(** [findDishes], from its [await] on. *)
Definition findDishes_settled (r : Settled (list DishSuggestion.t))
    (s : Session) : Session :=
  match r with
  | Fulfilled res => s |> setSuggestions res |> setState results
  | Rejected => s |> setError (Some suggestionsFailedMessage)
                  |> setState input
  end.

(** [loadMoreSuggestions], up to its [await]. *)
Definition loadMoreSuggestions (s : Session)
  : Session * option SuggestionCall :=
  if isFetchingMore s || hasReachedEnd s
  then (s, None)
  else (s |> setIsFetchingMore true,
        Some (mkCall (ingNames s) (base64 s)
                (map DishSuggestion.name (suggestions s)))).

(** [loadMoreSuggestions], from its [await] on: the [try] body or the
    [catch] (which only logs), then the [finally]. *)
Definition loadMoreSuggestions_settled (r : Settled (list DishSuggestion.t))
    (s : Session) : Session :=
  (match r with
   | Fulfilled res =>
       if length res =? 0
       then s |> setHasReachedEnd true
       else s |> setSuggestions (suggestions s ++ res)
   | Rejected => s
   end) |> setIsFetchingMore false.

(** [showRecipe], up to its [await]. *)
Definition showRecipe (dish : DishSuggestion.t) (s : Session)
  : Session * (DishSuggestion.t * list jsstring) :=
  (s |> setState loading_recipe, (dish, ingNames s)).

(** [showRecipe], from its [await] on. The value of a fulfilled call is
    what [getRecipeDetail] returned, the parsed answer, which nothing
    checks: [None] is an answer that parsed to [null]. *)
Definition showRecipe_settled (r : Settled (option RecipeDetail.t))
    (s : Session) : Session :=
  match r with
  | Fulfilled detail => s |> setSelectedRecipe detail
                          |> setState recipe
  | Rejected => s |> setError (Some detailFailedMessage)
                  |> setState results
  end.

Definition reset (s : Session) : Session :=
  s |> setState input
    |> setSuggestions []
    |> setSelectedRecipe None
    |> setCapturedImage None
    |> setIngredients []
    |> setHasReachedEnd false.

(** The guards of the five screen blocks of the returned JSX. *)
Definition renders (scr : AppState) (s : Session) : bool :=
  match scr with
  | recipe => AppState_eqb (state s) recipe
              && match selectedRecipe s with Some _ => true | None => false end
  | _ => AppState_eqb (state s) scr
  end.

(** The [disabled] attribute of the "Find Recipe Suggestions" button. *)
Definition findDisabled (s : Session) : bool :=
  (length (ingredients s) =? 0) && negb (truthy (capturedImage s)).


(** ** The session in its environment *)

(** The session and the calls that have been issued and not yet settled:
    initial suggestion calls, pagination calls, recipe-detail calls and
    [FileReader] reads. *)
Record World := mkWorld {
  session : Session;
  suggestCalls : nat;
  moreCalls : nat;
  detailCalls : nat;
  fileReads : nat
}.

Definition boot : World := mkWorld initial 0 0 0 0.

Definition withSession (s : Session) (w : World) : World :=
  mkWorld s (suggestCalls w) (moreCalls w) (detailCalls w) (fileReads w).

(** What can happen: the controls of the screen shown, the sentinel of
    the results screen coming into view, and the settling of a call. *)
Inductive Event :=
| Typed (value : jsstring)
| AddClicked (uuid : jsstring)
| RemoveClicked (id : jsstring)
| FileChosen
| FileLoaded (result : option jsstring)
| FindClicked
| SuggestionsSettled (r : Settled (list DishSuggestion.t))
| SentinelSeen
| MoreSettled (r : Settled (list DishSuggestion.t))
| BackToEdit
| DishClicked (idx : nat)
| DetailSettled (r : Settled (option RecipeDetail.t))
| BackToSuggestions
| StartOver.

Definition issued {A} (call : option A) : nat :=
  match call with Some _ => 1 | None => 0 end.

(** One event; [None] when the screen shown does not offer the control
    (it is not rendered, or it is disabled), or no call of that kind is in
    flight. The observer of the sentinel exists on the results screen
    only; here the effect has run since the last write, so the observer
    is the one of the session as it is ([pageStep] does without that). A
    call settles whatever screen is shown then. *)
Definition step (e : Event) (w : World) : option World :=
  let s := session w in
  match e with
  | Typed v =>
      if renders input s then Some (withSession (setInputValue v s) w)
      else None
  | AddClicked uuid =>
      if renders input s then Some (withSession (addIngredient uuid s) w)
      else None
  | RemoveClicked id =>
      if renders input s then Some (withSession (removeIngredient id s) w)
      else None
  | FileChosen =>
      if renders input s
      then Some (mkWorld s (suggestCalls w) (moreCalls w) (detailCalls w)
                   (S (fileReads w)))
      else None
  | FileLoaded result =>
      match fileReads w with
      | S n => Some (mkWorld (setCapturedImage result s) (suggestCalls w)
                       (moreCalls w) (detailCalls w) n)
      | O => None
      end
  | FindClicked =>
      if renders input s && negb (findDisabled s)
      then let (s', call) := findDishes s in
           Some (mkWorld s' (issued call + suggestCalls w) (moreCalls w)
                   (detailCalls w) (fileReads w))
      else None
  | SuggestionsSettled r =>
      match suggestCalls w with
      | S n => Some (mkWorld (findDishes_settled r s) n (moreCalls w)
                       (detailCalls w) (fileReads w))
      | O => None
      end
  | SentinelSeen =>
      if renders results s
      then let (s', call) := loadMoreSuggestions s in
           Some (mkWorld s' (suggestCalls w) (issued call + moreCalls w)
                   (detailCalls w) (fileReads w))
      else None
  | MoreSettled r =>
      match moreCalls w with
      | S n => Some (mkWorld (loadMoreSuggestions_settled r s)
                       (suggestCalls w) n (detailCalls w) (fileReads w))
      | O => None
      end
  | BackToEdit =>
      if renders results s then Some (withSession (setState input s) w)
      else None
  | DishClicked idx =>
      if renders results s
      then match nth_error (suggestions s) idx with
           | Some dish =>
               Some (mkWorld (fst (showRecipe dish s)) (suggestCalls w)
                       (moreCalls w) (S (detailCalls w)) (fileReads w))
           | None => None
           end
      else None
  | DetailSettled r =>
      match detailCalls w with
      | S n => Some (mkWorld (showRecipe_settled r s) (suggestCalls w)
                       (moreCalls w) n (fileReads w))
      | O => None
      end
  | BackToSuggestions =>
      if renders recipe s then Some (withSession (setState results s) w)
      else None
  | StartOver =>
      if renders recipe s then Some (withSession (reset s) w)
      else None
  end.

(** A run of events, oldest first. *)
Fixpoint run (es : list Event) (w : World) : option World :=
  match es with
  | [] => Some w
  | e :: es' =>
      match step e w with
      | Some w' => run es' w'
      | None => None
      end
  end.

Definition reachable (w : World) : Prop :=
  exists es, run es boot = Some w.

(** A run during which the results screen is never left. *)
Fixpoint stays_on_results (es : list Event) (w : World) : bool :=
  match es with
  | [] => true
  | e :: es' =>
      match step e w with
      | Some w' => AppState_eqb (state (session w')) results
                   && stays_on_results es' w'
      | None => false
      end
  end.

End App.
Import App.

(** ** Vocabulary of the statements *)

(** [t] is [v] without its leading and trailing white space. *)
Definition Trimmed (v t : jsstring) : Prop :=
  exists l r,
    v = l ++ t ++ r
    /\ forallb isWhiteSpace l = true
    /\ forallb isWhiteSpace r = true
    /\ (forall c, hd_error t = Some c -> isWhiteSpace c = false)
    /\ (forall c, hd_error (rev t) = Some c -> isWhiteSpace c = false).

(** [a] occurs in [b]. *)
Definition infix (a b : jsstring) : Prop :=
  exists p q, b = p ++ a ++ q.

(** The prompt names [n] after its instruction to avoid dishes. *)
Definition asksToAvoid (n p : jsstring) : Prop :=
  exists a b c,
    p = a ++ lit " DO NOT suggest any of these existing dishes: "
          ++ b ++ n ++ c.


(** What does hold of every world the program can be in. *)
Definition Inv (w : World) : Prop :=
  let s := session w in
  moreCalls w = (if isFetchingMore s then 1 else 0)
  /\ (isFetchingMore s = true -> hasReachedEnd s = false)
  /\ suggestCalls w = (if AppState_eqb (state s) suggesting then 1 else 0)
  /\ detailCalls w = (if AppState_eqb (state s) loading_recipe then 1 else 0).

(** ** Sample sessions *)

Definition omelette : DishSuggestion.t :=
  DishSuggestion.mk (lit "d1") (lit "Omelette") (lit "Eggs, folded.")
    (lit "10 min") Easy.

Definition frittata : DishSuggestion.t :=
  DishSuggestion.mk (lit "d2") (lit "Frittata") (lit "Eggs, baked.")
    (lit "25 min") Medium.

Definition omeletteRecipe : RecipeDetail.t :=
  RecipeDetail.mk (lit "Omelette") [lit "2 eggs"; lit "butter"]
    [lit "Beat."; lit "Fry."; lit "Fold."] [lit "Low heat."]
    [Substitution.mk (lit "butter")
       [Alternative.mk (lit "oil") (lit "crisper edge")]]
    (Some (lit "https://www.youtube.com/results?search_query=omelette"))
    None.

(** One ingredient is typed and added, the search is started and answers
    with one dish. *)
Definition toResults : list Event :=
  [Typed (lit " Egg "); AddClicked (lit "u1"); FindClicked;
   SuggestionsSettled (Fulfilled [omelette])].


(** ... or the sentinel is seen and a pagination call is in flight. *)
Definition paginatingRun : list Event := toResults ++ [SentinelSeen].

(** The search is started and no answer has come yet. *)
Definition searchingRun : list Event :=
  [Typed (lit " Egg "); AddClicked (lit "u1"); FindClicked].

(** A visit that reaches the recipe screen: text is left in the input
    buffer, a pagination call is still in flight when a dish is chosen,
    and the first detail call fails. *)
Definition toRecipe : list Event :=
  [Typed (lit "Egg"); AddClicked (lit "u1"); Typed (lit "Mi");
   FindClicked; SuggestionsSettled (Fulfilled [omelette]);
   SentinelSeen;
   DishClicked 0; DetailSettled Rejected;
   DishClicked 0; DetailSettled (Fulfilled (Some omeletteRecipe))].

(** The world a run from [boot] ends in. *)
Definition after (es : list Event) : World :=
  match run es boot with
  | Some w => w
  | None => boot
  end.

(** ** services/geminiService.ts: [getRecipeDetail] *)

Module RecipeService.

Definition quote : code_unit := 34%N.
Definition newline : code_unit := 10%N.

(** The template literal of the prompt, line by line. *)
Definition detailPrompt (dish : DishSuggestion.t)
    (allIngredients : list jsstring) : jsstring :=
  lit "Provide a detailed recipe for " ++ quote :: DishSuggestion.name dish
  ++ quote :: lit ". I have these ingredients: "
  ++ join (lit ", ") allIngredients ++ lit ". " ++ newline
  :: lit "  Include a YouTube search link for a tutorial of this specific dish. "
  ++ newline
  :: lit "  CRITICAL: Identify common ingredients in this recipe and provide at least 2-3 smart substitutions for them. Explain the effect of each substitution (e.g., "
  ++ quote
  :: lit "Using tofu instead of chicken makes it vegan and softer in texture"
  ++ quote :: lit ")." ++ newline
  :: lit "  The response should be JSON structured.".

(** One element of [groundingMetadata.groundingChunks]; [web] may be
    missing. *)
Record GroundingChunk := mkChunk { web : option Source.t }.

Definition hasWeb (chunk : GroundingChunk) : bool :=
  match web chunk with Some _ => true | None => false end.

(** [groundingChunks.filter(chunk => chunk.web).map(...)], the filter
    and the map in one pass: a chunk that passes the filter has its
    [web]. *)
Fixpoint webSources (chunks : list GroundingChunk) : list Source.t :=
  match chunks with
  | [] => []
  | chunk :: rest =>
      match web chunk with
      | Some wb => Source.mk (Source.title wb) (Source.uri wb)
                   :: webSources rest
      | None => webSources rest
      end
  end.

(** The end of [getRecipeDetail]: [detail] is the parsed answer,
    [groundingChunks] what the optional chain yields ([None] for
    [undefined]). *)
Definition withSources (groundingChunks : option (list GroundingChunk))
    (detail : RecipeDetail.t) : RecipeDetail.t :=
  match groundingChunks with
  | Some chunks =>
      RecipeDetail.mk (RecipeDetail.name detail)
        (RecipeDetail.ingredients detail) (RecipeDetail.instructions detail)
        (RecipeDetail.tips detail) (RecipeDetail.substitutions detail)
        (RecipeDetail.youtubeSearchUrl detail) (Some (webSources chunks))
  | None => detail
  end.

(** How the call settles, for the parsed answer ([None] when it parsed to
    [null]) and the grounding chunks: the answer is returned unchecked, and
    writing [sources] into [null] throws, which rejects the promise. *)
Definition getRecipeDetail_settles (parsed : option RecipeDetail.t)
    (groundingChunks : option (list GroundingChunk))
  : Settled (option RecipeDetail.t) :=
  match groundingChunks, parsed with
  | Some chunks, Some detail =>
      Fulfilled (Some (withSources (Some chunks) detail))
  | Some chunks, None => Rejected
  | None, _ => Fulfilled parsed
  end.

End RecipeService.
Import RecipeService.

(** ** The observer of the sentinel *)

(** [loadMoreSuggestions] as the observer calls it. The callback is the
    one of the render whose effect created the observer, so what it reads
    (the two flags, the ingredients, the image, the suggestions) is the
    session of that render, [closure]; what it writes goes to the session
    as it is now. *)
Definition loadMoreSuggestions_of (closure s : Session)
  : Session * option SuggestionCall :=
  if isFetchingMore closure || hasReachedEnd closure
  then (s, None)
  else (setIsFetchingMore true s,
        Some (mkCall (ingNames closure) (base64 closure)
                (map DishSuggestion.name (suggestions closure)))).

(** The world and the render the connected observer belongs to ([None]
    when no observer is connected). *)
Record Page := mkPage {
  world : World;
  observer : option Session
}.

(** The effect of the sentinel, run after a render of the session as it
    is: the old observer is disconnected, and a new one is created on the
    results screen only. *)
Definition effect (w : World) : option Session :=
  if AppState_eqb (state (session w)) results
  then Some (session w)
  else None.

(** A page whose effect has run since the last write. *)
Definition rendered (w : World) : Page := mkPage w (effect w).

Inductive Notice :=
| Render
| Handle (e : Event).

(** One notice. A notification of the sentinel goes to the connected
    observer; every other event is the one of [step] and leaves the
    observer as it is. *)
Definition pageStep (n : Notice) (p : Page) : option Page :=
  match n with
  | Render => Some (rendered (world p))
  | Handle SentinelSeen =>
      match observer p with
      | Some closure =>
          let w := world p in
          let (s', call) := loadMoreSuggestions_of closure (session w) in
          Some (mkPage
                  (mkWorld s' (suggestCalls w) (issued call + moreCalls w)
                     (detailCalls w) (fileReads w))
                  (observer p))
      | None => None
      end
  | Handle e =>
      match step e (world p) with
      | Some w' => Some (mkPage w' (observer p))
      | None => None
      end
  end.

Fixpoint pageRun (ns : list Notice) (p : Page) : option Page :=
  match ns with
  | [] => Some p
  | n :: ns' =>
      match pageStep n p with
      | Some p' => pageRun ns' p'
      | None => None
      end
  end.

(** ** More of the view and of the statements *)

(** The guard of the "Sources & References" block of the recipe screen:
    [selectedRecipe.sources && selectedRecipe.sources.length > 0]. *)
Definition showsSources (detail : RecipeDetail.t) : bool :=
  match RecipeDetail.sources detail with
  | Some (_ :: _) => true
  | _ => false
  end.


(** The recipe screen without a recipe, and no call left that could
    change the screen. *)
Definition stranded (w : World) : Prop :=
  state (session w) = recipe
  /\ selectedRecipe (session w) = None
  /\ suggestCalls w = 0
  /\ detailCalls w = 0.

(** The screens that show only the [Loader]. *)
Definition showsLoader (s : Session) : bool :=
  renders suggesting s || renders loading_recipe s.

(** The events that are not a control of a screen: a read or a call
    coming to its end. *)
Definition isSettling (e : Event) : bool :=
  match e with
  | FileLoaded _ | SuggestionsSettled _ | MoreSettled _ | DetailSettled _ =>
      true
  | _ => false
  end.

(** An ingredient name as [addIngredient] stores it. *)
Definition trimmedName (i : Ingredient.t) : Prop :=
  Ingredient.name i <> [] /\ trim (Ingredient.name i) = Ingredient.name i.

(** More of what holds of every world the program can be in. *)
Definition Tidy (w : World) : Prop :=
  let s := session w in
  Forall trimmedName (ingredients s)
  /\ (error s = None \/ error s = Some suggestionsFailedMessage
      \/ error s = Some detailFailedMessage)
  /\ (state s = suggesting -> error s = None).

(** A data URL without payload, as a reader gives it for an empty file. *)
Definition emptyFileSession : Session :=
  setCapturedImage (Some (lit "data:")) initial.

(** A session with one ingredient and a photo. *)
Definition photoSession : Session :=
  mkSession input [Ingredient.mk (lit "u1") (lit "Egg")] [] [] None None
    (Some (lit "data:image/png;base64,iVBORw0KGgo=")) false false.


(** The results screen, its effect not yet run, and two notifications of
    the sentinel that reach the observer of one render. *)
Definition twoNotifications : list Notice :=
  [Render; Handle SentinelSeen; Handle SentinelSeen].

(** One ingredient is typed and added. *)
Definition oneIngredient : list Event :=
  [Typed (lit "Egg"); AddClicked (lit "u1")].

Definition webChunk : GroundingChunk :=
  mkChunk (Some (Source.mk (lit "Omelette") (lit "https://example.org/o"))).

(** ** White space *)

Section Trim.

Lemma trimStart_split (s : jsstring) :
  exists l, s = l ++ trimStart s /\ forallb isWhiteSpace l = true.
Proof.
  induction s as [|c r [l [E W]]]; simpl.
  - exists []; auto.
  - destruct (isWhiteSpace c) eqn:Hc.
    + exists (c :: l); simpl; rewrite Hc, W; split; [congruence | reflexivity].
    + exists []; auto.
Qed.

Lemma trimStart_head (s : jsstring) (c : code_unit) :
  hd_error (trimStart s) = Some c -> isWhiteSpace c = false.
Proof.
  induction s as [|x r IH]; simpl; [discriminate|].
  destruct (isWhiteSpace x) eqn:Hx; auto.
  simpl; intros [= <-]; exact Hx.
Qed.

Lemma trimStart_nil (s : jsstring) :
  trimStart s = [] <-> forallb isWhiteSpace s = true.
Proof.
  induction s as [|x r IH]; simpl; [tauto|].
  destruct (isWhiteSpace x); simpl; [exact IH|].
  split; discriminate.
Qed.

(** Stripping on the left keeps the last unit of what remains. *)
Lemma trimStart_last (s : jsstring) (c : code_unit) :
  hd_error (rev (trimStart s)) = Some c -> hd_error (rev s) = Some c.
Proof.
  destruct (trimStart_split s) as [l [E _]].
  destruct (trimStart s) as [|x t] eqn:Ht; [discriminate|].
  intros H. rewrite E, rev_app_distr.
  destruct (rev (x :: t)) as [|y u] eqn:Hr; [discriminate|].
  exact H.
Qed.

Lemma forallb_rev (f : code_unit -> bool) (l : jsstring) :
  forallb f (rev l) = forallb f l.
Proof.
  induction l as [|x r IH]; simpl; [reflexivity|].
  rewrite forallb_app, IH; simpl. rewrite andb_true_r, andb_comm; reflexivity.
Qed.

Lemma trimEnd_split (s : jsstring) :
  exists r, s = trimEnd s ++ r /\ forallb isWhiteSpace r = true.
Proof.
  unfold trimEnd. destruct (trimStart_split (rev s)) as [l [E W]].
  exists (rev l). split.
  - rewrite <- rev_app_distr, <- E, rev_involutive; reflexivity.
  - rewrite forallb_rev; exact W.
Qed.

Lemma trim_Trimmed (v : jsstring) : Trimmed v (trim v).
Proof.
  destruct (trimStart_split v) as [l [El Wl]].
  destruct (trimEnd_split (trimStart v)) as [r [Er Wr]].
  exists l, r. repeat split; auto.
  - unfold trim. rewrite <- Er. exact El.
  - intros c Hc. unfold trim, trimEnd in Hc.
    apply trimStart_head with (s := v).
    rewrite <- (rev_involutive (trimStart v)).
    apply trimStart_last. exact Hc.
  - intros c. unfold trim, trimEnd. rewrite rev_involutive.
    apply trimStart_head.
Qed.

Lemma trim_nil (v : jsstring) :
  trim v = [] <-> forallb isWhiteSpace v = true.
Proof.
  unfold trim, trimEnd. split.
  - intros H. apply (f_equal (@rev _)) in H. rewrite rev_involutive in H.
    simpl in H. apply trimStart_nil in H. rewrite forallb_rev in H.
    destruct (trimStart_split v) as [l [E W]].
    rewrite E, forallb_app, W, H; reflexivity.
  - intros H. destruct (trimStart_split v) as [l [E W]].
    rewrite E, forallb_app in H. apply andb_prop in H as [_ H].
    rewrite <- forallb_rev in H. apply trimStart_nil in H.
    rewrite H; reflexivity.
Qed.

End Trim.

(** ** Adding an ingredient *)

(** C10. [addIngredient] leaves the session as it is when the input buffer
    is empty or holds white space only; otherwise it appends one
    ingredient, named by the buffer without its leading and trailing white
    space, after the ingredients already there, empties the buffer and
    touches nothing else. *)
Theorem addIngredient_appends_trimmed (uuid : jsstring) (s : Session) :
  Trimmed (inputValue s) (trim (inputValue s))
  /\ addIngredient uuid s =
       if forallb isWhiteSpace (inputValue s)
       then s
       else mkSession (state s)
              (ingredients s ++ [Ingredient.mk uuid (trim (inputValue s))])
              [] (suggestions s) (selectedRecipe s) (error s)
              (capturedImage s) (isFetchingMore s) (hasReachedEnd s).
Proof.
  split; [apply trim_Trimmed|].
  unfold addIngredient.
  destruct (forallb isWhiteSpace (inputValue s)) eqn:W.
  - apply trim_nil in W. rewrite W. reflexivity.
  - destruct (trim (inputValue s)) as [|c t] eqn:T; [|reflexivity].
    apply trim_nil in T. congruence.
Qed.

(** ** Invariants of the reachable worlds *)

Section Reachability.

Lemma Inv_boot : Inv boot.
Proof. repeat split; simpl; congruence. Qed.

Ltac crunch :=
  repeat match goal with
    | H : Some _ = Some _ |- _ => injection H as <-
    | H : None = Some _ |- _ => discriminate H
    | H : context [if ?b then _ else _] |- _ => destruct b eqn:?
    | H : match ?x with _ => _ end = Some _ |- _ => destruct x eqn:?
    | H : (let (_, _) := ?x in _) = Some _ |- _ => destruct x eqn:?
    end.

Lemma Inv_step (e : Event) (w w' : World) :
  Inv w -> step e w = Some w' -> Inv w'.
Proof.
  destruct w as [[st ing iv sg sr er ci fm he] a b c d].
  unfold Inv; simpl. intros (I2 & I3 & I4 & I5) H.
  destruct e; unfold step, renders in H; simpl in H;
    unfold addIngredient, removeIngredient, findDishes, findDishes_settled,
      loadMoreSuggestions, loadMoreSuggestions_settled, showRecipe,
      showRecipe_settled, reset in H; simpl in H;
    crunch; simpl in *;
    repeat match goal with
      | H : (_, _) = (_, _) |- _ => injection H as <- <-
      | |- context [match trim ?x with _ => _ end] => destruct (trim x)
      | |- context [match ?r with Fulfilled _ => _ | Rejected => _ end] =>
          destruct r
      | |- context [if ?n =? ?m then _ else _] => destruct (n =? m)
      end; simpl in *;
    destruct st; simpl in *; try discriminate;
    destruct fm; simpl in *; try discriminate;
    repeat split; intros; try congruence; try lia; auto.
Qed.

Lemma Inv_run (es : list Event) :
  forall w w', Inv w -> run es w = Some w' -> Inv w'.
Proof.
  induction es as [|e es IH]; simpl; intros w w' I H.
  - injection H as <-; exact I.
  - destruct (step e w) as [w1|] eqn:E; [|discriminate].
    eapply IH; [eapply Inv_step; eassumption | exact H].
Qed.

Lemma reachable_Inv (w : World) : reachable w -> Inv w.
Proof. intros [es H]. eapply Inv_run; [apply Inv_boot | exact H]. Qed.

End Reachability.

(** Case analysis of one [step]. *)

Ltac crunch_step :=
  repeat match goal with
    | H : Some _ = Some _ |- _ => injection H as <-
    | H : None = Some _ |- _ => discriminate H
    | H : context [if ?b then _ else _] |- _ => destruct b eqn:?
    | H : context [match ?x with _ => _ end] |- _ => destruct x eqn:?
    | H : (let (_, _) := ?x in _) = Some _ |- _ => destruct x eqn:?
    | H : (_, _) = (_, _) |- _ => injection H as <- <-
    end.

Ltac open_step H :=
  unfold step, renders, findDisabled in H; simpl in H;
  unfold addIngredient, removeIngredient, findDishes, findDishes_settled,
    loadMoreSuggestions, loadMoreSuggestions_settled, showRecipe,
    showRecipe_settled, reset in H; simpl in H.

Ltac button_disabled :=
  match goal with
  | H1 : ?c = true, H2 : _ && negb ?c = true |- _ =>
      rewrite H1, andb_false_r in H2; discriminate H2
  end.

(** ** The screens *)

Section Screens.





End Screens.

(** ** The first search *)

Section Search.

(** C2. On the input screen [findDishes] moves to [suggesting] with the
    error cleared exactly when there is an ingredient or an image; then
    it issues one suggestion call. With neither, the screen stays
    [input], the error is set and no call is issued. *)
Theorem findDishes_guard (s : Session) :
  state s = input ->
  ((state (fst (findDishes s)) = suggesting
    /\ error (fst (findDishes s)) = None)
   <-> (ingredients s <> [] \/ truthy (capturedImage s) = true))
  /\ (ingredients s <> [] \/ truthy (capturedImage s) = true ->
      snd (findDishes s) = Some (mkCall (ingNames s) (base64 s) []))
  /\ (ingredients s = [] -> truthy (capturedImage s) = false ->
      fst (findDishes s) = setError (Some noInputMessage) s
      /\ state (fst (findDishes s)) = input
      /\ error (fst (findDishes s)) <> None
      /\ snd (findDishes s) = None).
Proof.
  intros Hst. unfold findDishes.
  destruct (ingredients s) as [|i l] eqn:Hi;
    destruct (truthy (capturedImage s)) eqn:Hc; simpl;
    rewrite ?Hst; repeat split; intros;
    repeat match goal with
      | H : _ /\ _ |- _ => destruct H
      | H : _ \/ _ |- _ => destruct H
      end;
    try congruence; try discriminate; auto; try (left; discriminate).
Qed.

Lemma findDishes_guard_witness :
  state (session (after [Typed (lit "Egg"); AddClicked (lit "u1")])) = input
  /\ state (fst (findDishes
       (session (after [Typed (lit "Egg"); AddClicked (lit "u1")]))))
     = suggesting
  /\ state (fst (findDishes initial)) = input.
Proof.
  pose (s := session (after [Typed (lit "Egg"); AddClicked (lit "u1")])).
  assert (Hs : state s = input) by (vm_compute; reflexivity).
  split; [exact Hs|]. split.
  - apply (proj2 (proj1 (findDishes_guard s Hs))).
    left. vm_compute. discriminate.
  - apply (proj2 (proj2 (findDishes_guard initial eq_refl)));
      reflexivity.
Defined.

(** C3. A suggestion call is in flight only on the [suggesting] screen;
    when it fails the screen becomes [input], the error is set, and the
    suggestions are the ones there were. *)
Theorem failed_search_returns_to_input (w : World) :
  reachable w ->
  0 < suggestCalls w ->
  state (session w) = suggesting
  /\ exists w',
       step (SuggestionsSettled Rejected) w = Some w'
       /\ session w' = findDishes_settled Rejected (session w)
       /\ state (session w') = input
       /\ error (session w') = Some suggestionsFailedMessage
       /\ error (session w') <> None
       /\ suggestions (session w') = suggestions (session w).
Proof.
  intros R Hn. destruct (reachable_Inv w R) as (_ & _ & I4 & _).
  destruct w as [s a b c d]; simpl in *. split.
  - destruct (state s); simpl in I4; try lia; reflexivity.
  - destruct a as [|n]; [lia|].
    eexists; split; [reflexivity|]. simpl.
    repeat split; discriminate.
Qed.

Lemma failed_search_returns_to_input_witness :
  reachable (after searchingRun)
  /\ 0 < suggestCalls (after searchingRun)
  /\ state (session (after searchingRun)) = suggesting
  /\ exists w',
       step (SuggestionsSettled Rejected) (after searchingRun) = Some w'
       /\ session w'
          = findDishes_settled Rejected (session (after searchingRun))
       /\ state (session w') = input
       /\ error (session w') = Some suggestionsFailedMessage
       /\ error (session w') <> None
       /\ suggestions (session w')
          = suggestions (session (after searchingRun)).
Proof.
  assert (R : reachable (after searchingRun))
    by (exists searchingRun; vm_compute; reflexivity).
  assert (N : 0 < suggestCalls (after searchingRun))
    by (vm_compute; lia).
  split; [exact R|]. split; [exact N|].
  exact (failed_search_returns_to_input (after searchingRun) R N).
Defined.

End Search.

(** ** Pagination *)

Section Pagination.

(** When the effect has run between any two events (the runs of [step]),
    at most one pagination call is in flight: with both flags down the
    trigger raises [isFetchingMore] and issues one call, with either flag
    up it issues none and leaves the session as it is. *)
Theorem one_pagination_call_in_flight (w : World) :
  reachable w ->
  moreCalls w <= 1
  /\ (isFetchingMore (session w) = false ->
      hasReachedEnd (session w) = false ->
      moreCalls w = 0
      /\ (exists call,
            loadMoreSuggestions (session w)
            = (setIsFetchingMore true (session w), Some call))
      /\ (state (session w) = results ->
          exists w', step SentinelSeen w = Some w'
                     /\ session w' = setIsFetchingMore true (session w)
                     /\ moreCalls w' = 1))
  /\ (isFetchingMore (session w) = true
      \/ hasReachedEnd (session w) = true ->
      loadMoreSuggestions (session w) = (session w, None)
      /\ (state (session w) = results -> step SentinelSeen w = Some w)).
Proof.
  intros R. destruct (reachable_Inv w R) as (I2 & _).
  destruct w as [s a b c d]; simpl in *.
  split; [destruct (isFetchingMore s); lia|]. split.
  - intros F E. rewrite F in I2. split; [exact I2|].
    unfold step, renders, loadMoreSuggestions; simpl. rewrite F, E; simpl.
    split; [eexists; reflexivity|].
    intros ->; simpl. eexists; split; [reflexivity|].
    simpl. split; [reflexivity | lia].
  - intros H. unfold step, renders, loadMoreSuggestions; simpl.
    assert (G : isFetchingMore s || hasReachedEnd s = true)
      by (destruct H as [-> | ->]; [reflexivity | apply orb_true_r]).
    rewrite G. split; [reflexivity|]. intros ->; reflexivity.
Qed.

Lemma one_pagination_call_in_flight_witness :
  reachable (after paginatingRun)
  /\ moreCalls (after paginatingRun) <= 1
  /\ loadMoreSuggestions (session (after paginatingRun))
     = (session (after paginatingRun), None)
  /\ step SentinelSeen (after paginatingRun) = Some (after paginatingRun).
Proof.
  assert (R : reachable (after paginatingRun))
    by (exists paginatingRun; vm_compute; reflexivity).
  destruct (one_pagination_call_in_flight (after paginatingRun) R)
    as (L & _ & B).
  assert (F : isFetchingMore (session (after paginatingRun)) = true
              \/ hasReachedEnd (session (after paginatingRun)) = true)
    by (left; vm_compute; reflexivity).
  destruct (B F) as (N & S).
  split; [exact R|]. split; [exact L|]. split; [exact N|].
  apply S. vm_compute; reflexivity.
Defined.

(** The exhaustion flag stays up as long as the results screen is shown. *)
Lemma hasReachedEnd_kept (e : Event) (w w' : World) :
  step e w = Some w' ->
  hasReachedEnd (session w) = true ->
  state (session w') = results ->
  hasReachedEnd (session w') = true.
Proof.
  destruct w as [[st ing iv sg sr er ci fm he] a b c d]; simpl.
  intros H E. subst he.
  destruct e; unfold step, renders in H; simpl in H;
    unfold addIngredient, removeIngredient, findDishes, findDishes_settled,
      loadMoreSuggestions, loadMoreSuggestions_settled, showRecipe,
      showRecipe_settled, reset in H; simpl in H;
    repeat match goal with
      | H : Some _ = Some _ |- _ => injection H as <-
      | H : None = Some _ |- _ => discriminate H
      | H : context [if ?b then _ else _] |- _ => destruct b eqn:?
      | H : context [match ?x with _ => _ end] |- _ => destruct x eqn:?
      | H : (_, _) = (_, _) |- _ => injection H as <- <-
      end;
    simpl; try discriminate; try reflexivity;
    repeat match goal with
      | |- context [match ?x with _ => _ end] => destruct x; simpl
      end;
    try discriminate; try reflexivity.
Qed.

Lemma stays_on_results_kept (es : list Event) :
  forall w w',
    stays_on_results es w = true ->
    run es w = Some w' ->
    state (session w) = results ->
    hasReachedEnd (session w) = true ->
    state (session w') = results /\ hasReachedEnd (session w') = true.
Proof.
  induction es as [|e es IH]; simpl; intros w w' V H S E.
  - injection H as <-; auto.
  - destruct (step e w) as [w1|] eqn:St; [|discriminate].
    apply andb_prop in V as [V1 V2].
    assert (S1 : state (session w1) = results)
      by (destruct (state (session w1)); simpl in V1; congruence).
    apply (IH w1 w'); auto.
    eapply hasReachedEnd_kept; eassumption.
Qed.

(** C5. A pagination call that answers with no item raises
    [hasReachedEnd] and leaves the suggestions as they are; from then
    on, as long as the results screen is shown, the trigger issues no
    call and changes nothing. *)
Theorem empty_page_ends_pagination (w : World) :
  state (session w) = results ->
  0 < moreCalls w ->
  exists w1,
    step (MoreSettled (Fulfilled [])) w = Some w1
    /\ hasReachedEnd (session w1) = true
    /\ suggestions (session w1) = suggestions (session w)
    /\ forall es w2,
         stays_on_results es w1 = true ->
         run es w1 = Some w2 ->
         hasReachedEnd (session w2) = true
         /\ loadMoreSuggestions (session w2) = (session w2, None)
         /\ step SentinelSeen w2 = Some w2.
Proof.
  intros S N. destruct w as [s a b c d]; simpl in *.
  destruct b as [|n]; [lia|].
  eexists; split; [reflexivity|]. simpl.
  split; [reflexivity|]. split; [reflexivity|].
  intros es w2 V H.
  destruct (stays_on_results_kept es _ _ V H) as [S2 E2]; auto.
  destruct w2 as [s2 a2 b2 c2 d2]; simpl in *.
  unfold step, renders, loadMoreSuggestions; simpl.
  rewrite S2, E2, orb_true_r; simpl. auto.
Qed.

Lemma empty_page_ends_pagination_witness :
  state (session (after paginatingRun)) = results
  /\ 0 < moreCalls (after paginatingRun)
  /\ exists w1,
       step (MoreSettled (Fulfilled [])) (after paginatingRun) = Some w1
       /\ hasReachedEnd (session w1) = true
       /\ suggestions (session w1) = [omelette]
       /\ step SentinelSeen w1 = Some w1.
Proof.
  assert (S : state (session (after paginatingRun)) = results)
    by (vm_compute; reflexivity).
  assert (N : 0 < moreCalls (after paginatingRun)) by (vm_compute; lia).
  split; [exact S|]. split; [exact N|].
  destruct (empty_page_ends_pagination (after paginatingRun) S N)
    as (w1 & St & E & Sg & Later).
  exists w1. split; [exact St|]. split; [exact E|].
  split; [rewrite Sg; vm_compute; reflexivity|].
  apply (Later [] w1); reflexivity.
Defined.

End Pagination.

Section PaginationAnswers.





End PaginationAnswers.

(** ** The prompt *)

Section Prompt.

Lemma join_infix (sep n : jsstring) (l : list jsstring) :
  In n l -> exists a b, join sep l = a ++ n ++ b.
Proof.
  induction l as [|x r IH]; [intros []|].
  intros [-> | H].
  - destruct r as [|y r'].
    + exists [], []. simpl. rewrite app_nil_r; reflexivity.
    + exists [], (sep ++ join sep (y :: r')). reflexivity.
  - destruct r as [|y r']; [destruct H|].
    destruct (IH H) as (a & b & E).
    exists (x ++ sep ++ a), b.
    change (join sep (x :: y :: r')) with (x ++ sep ++ join sep (y :: r')).
    rewrite E, <- !app_assoc; reflexivity.
Qed.

(** C9. The call issued by the pagination trigger excludes exactly the
    names of the suggestions of the session, in their order; its prompt
    asks for 4 dishes and names every excluded dish after the
    instruction to avoid dishes. *)
Theorem pagination_call_excludes_shown (s : Session) (call : SuggestionCall) :
  snd (loadMoreSuggestions s) = Some call ->
  excludeDishes call = map DishSuggestion.name (suggestions s)
  /\ infix (lit "Suggest 4 unique and delicious dishes I can cook.")
       (prompt call)
  /\ forall n, In n (excludeDishes call) -> asksToAvoid n (prompt call).
Proof.
  unfold loadMoreSuggestions.
  destruct (isFetchingMore s || hasReachedEnd s); simpl; [discriminate|].
  intros [= <-]; simpl. split; [reflexivity|]. split.
  - unfold infix, prompt, suggestLine.
    exists (lit "Based on these ingredients: "
            ++ join (lit ", ") (ingNames s) ++ lit ". ").
    eexists. rewrite <- !app_assoc. do 2 f_equal.
    change (lit ". Suggest 4 unique and delicious dishes I can cook.")
      with (lit ". "
            ++ lit "Suggest 4 unique and delicious dishes I can cook.").
    rewrite <- !app_assoc. reflexivity.
  - intros n Hn. unfold asksToAvoid, prompt; simpl.
    unfold excludeText.
    destruct (map DishSuggestion.name (suggestions s)) as [|x r] eqn:Hm;
      [destruct Hn|].
    destruct (join_infix (lit ", ") n (x :: r) Hn) as (a & b & E).
    change (0 <? length (x :: r)) with true. cbv iota. rewrite E.
    exists (lit "Based on these ingredients: "
            ++ join (lit ", ") (ingNames s) ++ suggestLine), a.
    eexists. rewrite <- !app_assoc. reflexivity.
Qed.

Lemma pagination_call_excludes_shown_witness :
  exists call,
    snd (loadMoreSuggestions (session (after toResults))) = Some call
    /\ excludeDishes call = [lit "Omelette"]
    /\ asksToAvoid (lit "Omelette") (prompt call).
Proof.
  eexists. split; [vm_compute; reflexivity|].
  match goal with
  | |- excludeDishes ?c = _ /\ _ =>
      assert (H : snd (loadMoreSuggestions (session (after toResults)))
                  = Some c) by (vm_compute; reflexivity);
      destruct (pagination_call_excludes_shown _ c H) as (E & _ & A)
  end.
  split; [rewrite E; vm_compute; reflexivity|].
  apply A. rewrite E. vm_compute. left; reflexivity.
Defined.

End Prompt.

(** ** Starting over *)

Section StartingOver.

(** C8, as amended. [reset] shows the input screen, empties the
    ingredients and the suggestions, drops the selected recipe and the
    captured image and lowers [hasReachedEnd]; the input buffer, the
    error and [isFetchingMore] keep their values, so the session is the
    initial one exactly when those three already had their initial
    values. *)
Theorem reset_clears_six_cells (s : Session) :
  reset s = mkSession input [] (inputValue s) [] None (error s) None
              (isFetchingMore s) false
  /\ (reset s = initial
      <-> inputValue s = [] /\ error s = None /\ isFetchingMore s = false).
Proof.
  split; [reflexivity|].
  destruct s as [st ing iv sg sr er ci fm he].
  unfold reset, initial; simpl. split.
  - intros H. injection H as H1 H2 H3. auto.
  - intros (-> & -> & ->); reflexivity.
Qed.

(** C8, as the specification words it, fails: the start-over button of
    the recipe screen can leave text in the input buffer, an error
    shown and [isFetchingMore] up. *)
Lemma start_over_keeps_three_cells :
  reachable (after toRecipe)
  /\ state (session (after toRecipe)) = recipe
  /\ step StartOver (after toRecipe)
     = Some (withSession (reset (session (after toRecipe)))
               (after toRecipe))
  /\ inputValue (reset (session (after toRecipe))) = lit "Mi"
  /\ error (reset (session (after toRecipe))) = Some detailFailedMessage
  /\ isFetchingMore (reset (session (after toRecipe))) = true
  /\ reset (session (after toRecipe)) <> initial.
Proof.
  split; [exists toRecipe; vm_compute; reflexivity|].
  repeat (split; [vm_compute; reflexivity|]).
  vm_compute. discriminate.
Qed.

End StartingOver.

(** ** The ingredient list *)

Section Ingredients.

Lemma str_eqb_eq (a b : jsstring) : str_eqb a b = true <-> a = b.
Proof.
  revert b; induction a as [|x a IH]; intros [|y b]; simpl;
    try (split; [discriminate | congruence]); [tauto|].
  rewrite andb_true_iff, N.eqb_eq, IH. split.
  - intros [-> ->]; reflexivity.
  - intros [= -> ->]; auto.
Qed.

Lemma str_eqb_refl (a : jsstring) : str_eqb a a = true.
Proof. apply str_eqb_eq; reflexivity. Qed.

Lemma kept_iff (id : jsstring) (i : Ingredient.t) :
  negb (str_eqb (Ingredient.id i) id) = true <-> Ingredient.id i <> id.
Proof.
  rewrite negb_true_iff, <- not_true_iff_false, str_eqb_eq. tauto.
Qed.

Lemma filter_all (A : Type) (f : A -> bool) (l : list A) :
  (forall x, In x l -> f x = true) -> filter f l = l.
Proof.
  induction l as [|x l IH]; simpl; intros H; [reflexivity|].
  rewrite (H x (or_introl eq_refl)), IH; auto.
Qed.

(** X1. [removeIngredient] takes away every ingredient with the given id and
    no other, writes no other cell, and leaves the session as it is when
    no ingredient has that id. *)
Theorem removeIngredient_removes_id (id : jsstring) (s : Session) :
  (forall i, In i (ingredients (removeIngredient id s))
             <-> In i (ingredients s) /\ Ingredient.id i <> id)
  /\ length (ingredients (removeIngredient id s)) <= length (ingredients s)
  /\ setIngredients (ingredients s) (removeIngredient id s) = s
  /\ ((forall i, In i (ingredients s) -> Ingredient.id i <> id) ->
      removeIngredient id s = s).
Proof.
  destruct s as [st ing iv sg sr er ci fm he].
  unfold removeIngredient, setIngredients; simpl.
  split; [|split; [|split]].
  - intros i. rewrite filter_In, kept_iff. tauto.
  - apply filter_length_le.
  - reflexivity.
  - intros H. rewrite filter_all; [reflexivity|].
    intros i Hi. apply kept_iff, H, Hi.
Qed.

(** X2. Adding an ingredient under an id that no ingredient has, and removing
    it again, gives the ingredient list there was. *)
Theorem add_then_remove (uuid : jsstring) (s : Session) :
  (forall i, In i (ingredients s) -> Ingredient.id i <> uuid) ->
  ingredients (removeIngredient uuid (addIngredient uuid s)) = ingredients s.
Proof.
  intros Fresh. unfold addIngredient.
  destruct (trim (inputValue s)) as [|c t]; unfold removeIngredient; simpl.
  - apply filter_all. intros i Hi. apply kept_iff, Fresh, Hi.
  - rewrite filter_app; simpl. rewrite str_eqb_refl; simpl.
    rewrite app_nil_r. apply filter_all.
    intros i Hi. apply kept_iff, Fresh, Hi.
Qed.

Lemma add_then_remove_witness :
  ingredients
    (removeIngredient (lit "u2")
       (addIngredient (lit "u2")
          (setInputValue (lit " Milk") photoSession)))
  = ingredients photoSession.
Proof.
  apply (add_then_remove (lit "u2") (setInputValue (lit " Milk") photoSession)).
  intros i [<- | []]. vm_compute. discriminate.
Defined.

Lemma trimStart_fixed (s : jsstring) :
  (forall c, hd_error s = Some c -> isWhiteSpace c = false) ->
  trimStart s = s.
Proof.
  destruct s as [|x r]; simpl; [reflexivity|].
  intros H. rewrite (H x eq_refl). reflexivity.
Qed.

Lemma trim_idempotent (v : jsstring) : trim (trim v) = trim v.
Proof.
  destruct (trim_Trimmed v) as (l & r & _ & _ & _ & Hd & Tl).
  unfold trim at 1, trimEnd.
  rewrite (trimStart_fixed (trim v) Hd).
  rewrite (trimStart_fixed (rev (trim v)) Tl).
  apply rev_involutive.
Qed.

End Ingredients.

(** ** More invariants of the reachable worlds *)

Section Tidiness.

Lemma Tidy_boot : Tidy boot.
Proof. repeat split; simpl; auto. Qed.

Lemma trimmedName_added (uuid v : jsstring) :
  trim v <> [] -> trimmedName (Ingredient.mk uuid (trim v)).
Proof. intros H. split; simpl; [exact H | apply trim_idempotent]. Qed.

Lemma Forall_filter_kept (A : Type) (P : A -> Prop) (f : A -> bool)
    (l : list A) :
  Forall P l -> Forall P (filter f l).
Proof.
  rewrite !Forall_forall. intros H x Hx. apply filter_In in Hx. apply H, Hx.
Qed.

Lemma Tidy_step (e : Event) (w w' : World) :
  Inv w -> Tidy w -> step e w = Some w' -> Tidy w'.
Proof.
  destruct w as [[st ing iv sg sr er ci fm he] a b c d].
  unfold Inv, Tidy; simpl.
  intros (_ & _ & I4 & I5) (T1 & T2 & T3) H.
  destruct e; open_step H; crunch_step; simpl in *;
    repeat match goal with
      | |- context [match trim ?x with _ => _ end] => destruct (trim x) eqn:?
      | |- context [match ?r with Fulfilled _ => _ | Rejected => _ end] =>
          destruct r
      | |- context [if ?n =? ?m then _ else _] => destruct (n =? m)
      end; simpl in *;
    (split; [|split]); auto; try discriminate;
    try (destruct st; simpl in *; (discriminate || lia));
    try (apply Forall_filter_kept, T1); try button_disabled.
  (* addIngredient, buffer not blank *)
  apply Forall_app; split; [exact T1|].
  constructor; [|constructor].
  match goal with E : trim iv = _ |- _ => rewrite <- E end.
  apply trimmedName_added. congruence.
Qed.

Lemma Tidy_run (es : list Event) :
  forall w w', Inv w -> Tidy w -> run es w = Some w' -> Tidy w'.
Proof.
  induction es as [|e es IH]; simpl; intros w w' I T H.
  - injection H as <-; exact T.
  - destruct (step e w) as [w1|] eqn:E; [|discriminate].
    apply (IH w1 w'); auto;
      [eapply Inv_step | eapply Tidy_step]; eassumption.
Qed.

Lemma reachable_Tidy (w : World) : reachable w -> Tidy w.
Proof.
  intros [es H]. eapply Tidy_run; [apply Inv_boot | apply Tidy_boot | exact H].
Qed.

(** X3. In every reachable world each ingredient has a name that is not empty
    and has no white space at either end. *)
Theorem ingredient_names_are_trimmed (w : World) (i : Ingredient.t) :
  reachable w ->
  In i (ingredients (session w)) ->
  Ingredient.name i <> []
  /\ (forall c, hd_error (Ingredient.name i) = Some c ->
                isWhiteSpace c = false)
  /\ (forall c, hd_error (rev (Ingredient.name i)) = Some c ->
                isWhiteSpace c = false).
Proof.
  intros R Hi. destruct (reachable_Tidy w R) as (T1 & _).
  rewrite Forall_forall in T1. destruct (T1 i Hi) as [Hne Htr].
  split; [exact Hne|].
  destruct (trim_Trimmed (Ingredient.name i)) as (l & r & _ & _ & _ & Hd & Tl).
  rewrite Htr in Hd, Tl. auto.
Qed.

Lemma ingredient_names_are_trimmed_witness :
  reachable (after toResults)
  /\ In (Ingredient.mk (lit "u1") (lit "Egg"))
       (ingredients (session (after toResults)))
  /\ lit "Egg" <> [].
Proof.
  assert (R : reachable (after toResults))
    by (exists toResults; vm_compute; reflexivity).
  assert (M : In (Ingredient.mk (lit "u1") (lit "Egg"))
                (ingredients (session (after toResults))))
    by (vm_compute; left; reflexivity).
  split; [exact R|]. split; [exact M|].
  exact (proj1 (ingredient_names_are_trimmed _ _ R M)).
Defined.

(** X4. The search button, whenever it takes a click, starts a search: the
    screen becomes [suggesting], the error is cleared and one suggestion
    call is in flight. The message for a search without input is never
    the error of a reachable world. *)
Theorem find_click_starts_a_search (w : World) :
  reachable w ->
  error (session w) <> Some noInputMessage
  /\ forall w', step FindClicked w = Some w' ->
       state (session w') = suggesting
       /\ error (session w') = None
       /\ hasReachedEnd (session w') = false
       /\ suggestCalls w' = 1
       /\ snd (findDishes (session w))
          = Some (mkCall (ingNames (session w)) (base64 (session w)) []).
Proof.
  intros R. destruct (reachable_Tidy w R) as (_ & T2 & _).
  destruct (reachable_Inv w R) as (_ & _ & I4 & _).
  split.
  - destruct T2 as [E | [E | E]]; rewrite E; vm_compute; discriminate.
  - intros w' H.
    destruct w as [[st ing iv sg sr er ci fm he] a b c d]; simpl in *.
    unfold step, renders, findDisabled, findDishes in *; simpl in *.
    destruct st; simpl in *; try discriminate.
    destruct ((length ing =? 0) && negb (truthy ci)); simpl in *;
      [discriminate|].
    injection H as <-; simpl. repeat split; auto.
Qed.

Lemma find_click_starts_a_search_witness :
  reachable (after oneIngredient)
  /\ step FindClicked (after oneIngredient)
     = Some (after (oneIngredient ++ [FindClicked]))
  /\ state (session (after (oneIngredient ++ [FindClicked]))) = suggesting.
Proof.
  assert (R : reachable (after oneIngredient))
    by (exists oneIngredient; vm_compute; reflexivity).
  assert (S : step FindClicked (after oneIngredient)
              = Some (after (oneIngredient ++ [FindClicked])))
    by (vm_compute; reflexivity).
  split; [exact R|]. split; [exact S|].
  exact (proj1 (proj2 (find_click_starts_a_search _ R) _ S)).
Defined.

(** X5. A search that succeeds shows the results screen with exactly the
    dishes received, in the order received, in place of the suggestions
    there were; no error is shown then. *)
Theorem successful_search_shows_results (w : World)
    (res : list DishSuggestion.t) :
  reachable w ->
  0 < suggestCalls w ->
  exists w',
    step (SuggestionsSettled (Fulfilled res)) w = Some w'
    /\ state (session w') = results
    /\ suggestions (session w') = res
    /\ error (session w') = None
    /\ suggestCalls w' = 0.
Proof.
  intros R N. destruct (reachable_Tidy w R) as (_ & _ & T3).
  destruct (reachable_Inv w R) as (_ & _ & I4 & _).
  destruct w as [[st ing iv sg sr er ci fm he] a b c d]; simpl in *.
  destruct a as [|n]; [lia|].
  assert (st = suggesting) as -> by (destruct st; simpl in I4; congruence).
  simpl in I4. eexists; split; [reflexivity|]. simpl.
  repeat split; auto; lia.
Qed.

Lemma successful_search_shows_results_witness :
  reachable (after searchingRun)
  /\ 0 < suggestCalls (after searchingRun)
  /\ exists w',
       step (SuggestionsSettled (Fulfilled [omelette; frittata]))
         (after searchingRun) = Some w'
       /\ suggestions (session w') = [omelette; frittata].
Proof.
  assert (R : reachable (after searchingRun))
    by (exists searchingRun; vm_compute; reflexivity).
  assert (N : 0 < suggestCalls (after searchingRun)) by (vm_compute; lia).
  split; [exact R|]. split; [exact N|].
  destruct (successful_search_shows_results _ [omelette; frittata] R N)
    as (w' & St & _ & Sg & _).
  exists w'. split; [exact St | exact Sg].
Defined.

End Tidiness.

(** ** Navigation *)

Section Navigation.

(** X6. An error that is shown stays until a search is started: of all the
    events only the click on the search button clears it. *)
Theorem only_a_search_clears_the_error (e : Event) (w w' : World) :
  step e w = Some w' ->
  error (session w) <> None ->
  error (session w') = None ->
  e = FindClicked.
Proof.
  destruct w as [[st ing iv sg sr er ci fm he] a b c d]; simpl.
  intros H E.
  destruct e; try reflexivity; open_step H; crunch_step; simpl;
    repeat match goal with
      | |- context [match trim ?x with _ => _ end] => destruct (trim x)
      | |- context [match ?r with Fulfilled _ => _ | Rejected => _ end] =>
          destruct r
      | |- context [if ?n =? ?m then _ else _] => destruct (n =? m)
      end; simpl; intros E'; try discriminate; contradiction.
Qed.

Lemma only_a_search_clears_the_error_witness :
  step FindClicked (after (searchingRun ++ [SuggestionsSettled Rejected]))
  = Some (after (searchingRun ++ [SuggestionsSettled Rejected; FindClicked]))
  /\ error (session (after (searchingRun ++ [SuggestionsSettled Rejected])))
     <> None
  /\ error (session (after (searchingRun
                             ++ [SuggestionsSettled Rejected; FindClicked])))
     = None
  /\ FindClicked = FindClicked.
Proof.
  assert (S : step FindClicked
                (after (searchingRun ++ [SuggestionsSettled Rejected]))
              = Some (after (searchingRun
                             ++ [SuggestionsSettled Rejected; FindClicked])))
    by (vm_compute; reflexivity).
  assert (E : error (session (after (searchingRun
                                     ++ [SuggestionsSettled Rejected])))
              <> None) by (vm_compute; discriminate).
  assert (E' : error (session (after (searchingRun
                            ++ [SuggestionsSettled Rejected; FindClicked])))
               = None) by (vm_compute; reflexivity).
  split; [exact S|]. split; [exact E|]. split; [exact E'|].
  exact (only_a_search_clears_the_error _ _ _ S E E').
Defined.

(** X7. Choosing a dish on the results screen, its recipe arriving, and going
    back: the loader is shown with one more detail call in flight, then
    the recipe screen with the recipe received, then the results screen
    again, where only the selected recipe differs from before. *)
Theorem choose_dish_and_come_back (w : World) (idx : nat)
    (dish : DishSuggestion.t) (detail : RecipeDetail.t) :
  state (session w) = results ->
  nth_error (suggestions (session w)) idx = Some dish ->
  exists w1 w2,
    step (DishClicked idx) w = Some w1
    /\ state (session w1) = loading_recipe
    /\ detailCalls w1 = S (detailCalls w)
    /\ snd (showRecipe dish (session w)) = (dish, ingNames (session w))
    /\ step (DetailSettled (Fulfilled (Some detail))) w1 = Some w2
    /\ state (session w2) = recipe
    /\ selectedRecipe (session w2) = Some detail
    /\ step BackToSuggestions w2
       = Some (withSession (setSelectedRecipe (Some detail) (session w)) w).
Proof.
  destruct w as [[st ing iv sg sr er ci fm he] a b c d]; simpl.
  intros -> Hd.
  unfold step, renders; simpl. rewrite Hd.
  do 2 eexists. repeat (split; [reflexivity|]). reflexivity.
Qed.

Lemma choose_dish_and_come_back_witness :
  state (session (after toResults)) = results
  /\ nth_error (suggestions (session (after toResults))) 0 = Some omelette
  /\ exists w1 w2,
       step (DishClicked 0) (after toResults) = Some w1
       /\ step (DetailSettled (Fulfilled (Some omeletteRecipe))) w1 = Some w2
       /\ selectedRecipe (session w2) = Some omeletteRecipe.
Proof.
  assert (S : state (session (after toResults)) = results)
    by (vm_compute; reflexivity).
  assert (D : nth_error (suggestions (session (after toResults))) 0
              = Some omelette) by (vm_compute; reflexivity).
  split; [exact S|]. split; [exact D|].
  destruct (choose_dish_and_come_back _ 0 omelette omeletteRecipe S D)
    as (w1 & w2 & S1 & _ & _ & _ & S2 & _ & Sel & _).
  exists w1, w2. auto.
Defined.

(** X8. Choosing a dish whose recipe call fails leads back to the results
    screen with the detail error set and every other cell, the world's
    calls in flight included, as before the click. *)
Theorem failed_recipe_returns_to_results (w : World) (idx : nat)
    (dish : DishSuggestion.t) :
  state (session w) = results ->
  nth_error (suggestions (session w)) idx = Some dish ->
  run [DishClicked idx; DetailSettled Rejected] w
  = Some (withSession (setError (Some detailFailedMessage) (session w)) w).
Proof.
  destruct w as [[st ing iv sg sr er ci fm he] a b c d]; simpl.
  intros -> Hd.
  unfold step, renders; simpl. rewrite Hd. reflexivity.
Qed.

Lemma failed_recipe_returns_to_results_witness :
  state (session (after toResults)) = results
  /\ nth_error (suggestions (session (after toResults))) 0 = Some omelette
  /\ run [DishClicked 0; DetailSettled Rejected] (after toResults)
     = Some (withSession
               (setError (Some detailFailedMessage)
                  (session (after toResults)))
               (after toResults)).
Proof.
  assert (S : state (session (after toResults)) = results)
    by (vm_compute; reflexivity).
  assert (D : nth_error (suggestions (session (after toResults))) 0
              = Some omelette) by (vm_compute; reflexivity).
  split; [exact S|]. split; [exact D|].
  exact (failed_recipe_returns_to_results _ 0 omelette S D).
Defined.

(** X9. While a loader is shown exactly one suggestion or detail call is in
    flight, on the other screens none; and a loader screen takes no
    control: every event it accepts is a read or a call coming to its
    end. *)
Theorem loader_screens_take_no_control (w : World) :
  reachable w ->
  suggestCalls w + detailCalls w = (if showsLoader (session w) then 1 else 0)
  /\ (showsLoader (session w) = true ->
      forall e w', step e w = Some w' -> isSettling e = true).
Proof.
  intros R. destruct (reachable_Inv w R) as (_ & _ & I4 & I5).
  destruct w as [[st ing iv sg sr er ci fm he] a b c d]; simpl in *.
  unfold showsLoader, renders; simpl. split.
  - destruct st; simpl in *; lia.
  - intros L e w' H.
    destruct e; try reflexivity; unfold step, renders in H; simpl in H;
      destruct st; simpl in *; discriminate.
Qed.

Lemma loader_screens_take_no_control_witness :
  reachable (after searchingRun)
  /\ suggestCalls (after searchingRun) + detailCalls (after searchingRun) = 1
  /\ step (Typed (lit "x")) (after searchingRun) = None.
Proof.
  assert (R : reachable (after searchingRun))
    by (exists searchingRun; vm_compute; reflexivity).
  destruct (loader_screens_take_no_control _ R) as [C L].
  split; [exact R|]. split.
  - rewrite C. vm_compute; reflexivity.
  - destruct (step (Typed (lit "x")) (after searchingRun)) as [w'|] eqn:E;
      [|reflexivity].
    assert (Sh : showsLoader (session (after searchingRun)) = true)
      by (vm_compute; reflexivity).
    discriminate (L Sh _ _ E).
Defined.

Lemma results_step_appends (e : Event) (w w' : World) :
  Inv w ->
  state (session w) = results ->
  step e w = Some w' ->
  exists more,
    suggestions (session w') = suggestions (session w) ++ more.
Proof.
  destruct w as [[st ing iv sg sr er ci fm he] a b c d].
  unfold Inv; simpl. intros (_ & _ & I4 & I5) -> H. simpl in *.
  destruct e; open_step H; crunch_step; simpl;
    try (exists []; rewrite app_nil_r; reflexivity); try discriminate.
  destruct r as [res|]; simpl.
  - destruct (length res =? 0); simpl;
      [exists []; rewrite app_nil_r | exists res]; reflexivity.
  - exists []; rewrite app_nil_r; reflexivity.
Qed.

(** X10. As long as the results screen is shown the dishes shown are never
    removed, replaced or reordered: the list only grows at its end. *)
Theorem shown_dishes_only_grow (es : list Event) (w w' : World) :
  reachable w ->
  state (session w) = results ->
  stays_on_results es w = true ->
  run es w = Some w' ->
  exists more,
    suggestions (session w') = suggestions (session w) ++ more.
Proof.
  intros R. apply reachable_Inv in R. revert w R.
  induction es as [|e es IH]; simpl; intros w I S V H.
  - injection H as <-. exists []. rewrite app_nil_r; reflexivity.
  - destruct (step e w) as [w1|] eqn:E; [|discriminate].
    apply andb_prop in V as [V1 V2].
    assert (S1 : state (session w1) = results)
      by (destruct (state (session w1)); simpl in V1; congruence).
    destruct (results_step_appends e w w1 I S E) as [m1 E1].
    destruct (IH w1 (Inv_step e w w1 I E) S1 V2 H) as [m2 E2].
    exists (m1 ++ m2). rewrite E2, E1, app_assoc; reflexivity.
Qed.

Lemma shown_dishes_only_grow_witness :
  reachable (after toResults)
  /\ state (session (after toResults)) = results
  /\ stays_on_results [SentinelSeen; MoreSettled (Fulfilled [frittata])]
       (after toResults) = true
  /\ exists w',
       run [SentinelSeen; MoreSettled (Fulfilled [frittata])]
         (after toResults) = Some w'
       /\ exists more, suggestions (session w') = [omelette] ++ more.
Proof.
  assert (R : reachable (after toResults))
    by (exists toResults; vm_compute; reflexivity).
  assert (S : state (session (after toResults)) = results)
    by (vm_compute; reflexivity).
  assert (V : stays_on_results
                [SentinelSeen; MoreSettled (Fulfilled [frittata])]
                (after toResults) = true) by (vm_compute; reflexivity).
  assert (H : run [SentinelSeen; MoreSettled (Fulfilled [frittata])]
                (after toResults)
              = Some (after (toResults
                             ++ [SentinelSeen;
                                 MoreSettled (Fulfilled [frittata])])))
    by (vm_compute; reflexivity).
  split; [exact R|]. split; [exact S|]. split; [exact V|].
  eexists. split; [exact H|].
  exact (shown_dishes_only_grow _ _ _ R S V H).
Defined.

End Navigation.

(** ** The photo *)

Section Photo.

Lemma split_from_whole (sep : code_unit) (d cur : jsstring) :
  ~ In sep d -> split_from sep cur d = [rev cur ++ d].
Proof.
  revert cur; induction d as [|c d IH]; simpl; intros cur H.
  - rewrite app_nil_r; reflexivity.
  - destruct (N.eqb_spec c sep) as [-> | Hc]; [exfalso; apply H; auto|].
    rewrite IH by tauto. simpl. rewrite <- app_assoc. reflexivity.
Qed.

Lemma split_from_first (sep : code_unit) (h d cur : jsstring) :
  ~ In sep h ->
  split_from sep cur (h ++ sep :: d) = (rev cur ++ h) :: split_from sep [] d.
Proof.
  revert cur; induction h as [|c h IH]; simpl; intros cur H.
  - rewrite N.eqb_refl, app_nil_r; reflexivity.
  - destruct (N.eqb_spec c sep) as [-> | Hc]; [exfalso; apply H; auto|].
    rewrite IH by tauto. simpl. rewrite <- app_assoc. reflexivity.
Qed.

Lemma base64_split (s : Session) (h d : jsstring) :
  capturedImage s = Some (h ++ 44%N :: d) ->
  ~ In 44%N h -> ~ In 44%N d ->
  base64 s = Some d.
Proof.
  intros E Hh Hd. unfold base64, split. rewrite E.
  rewrite split_from_first by exact Hh.
  rewrite split_from_whole by exact Hd. reflexivity.
Qed.

(** X11. Of a data URL with one comma the call gets what follows the comma;
    of a captured image without a comma, or of none, it gets nothing. *)
Theorem base64_is_the_payload (s : Session) :
  (forall h d, capturedImage s = Some (h ++ 44%N :: d) ->
               ~ In 44%N h -> ~ In 44%N d -> base64 s = Some d)
  /\ (forall url, capturedImage s = Some url -> ~ In 44%N url ->
                  base64 s = None)
  /\ (capturedImage s = None -> base64 s = None).
Proof.
  split; [intros h d; apply base64_split|]. split.
  - intros url E H. unfold base64, split. rewrite E.
    rewrite split_from_whole by exact H. reflexivity.
  - intros E. unfold base64. rewrite E. reflexivity.
Qed.

(** X12. With a photo whose data URL carries a payload, the request of a search
    and of a pagination call is the image, declared as JPEG whatever the
    URL says, followed by the prompt. *)
Theorem photo_is_sent_before_the_prompt (s : Session) (h d : jsstring) :
  capturedImage s = Some (h ++ 44%N :: d) ->
  ~ In 44%N h -> ~ In 44%N d -> d <> [] ->
  (exists call,
     snd (findDishes s) = Some call
     /\ contents call = [InlineData (lit "image/jpeg") d; Text (prompt call)])
  /\ (isFetchingMore s = false -> hasReachedEnd s = false ->
      exists call,
        snd (loadMoreSuggestions s) = Some call
        /\ contents call
           = [InlineData (lit "image/jpeg") d; Text (prompt call)]).
Proof.
  intros E Hh Hd Hne.
  pose proof (base64_split s h d E Hh Hd) as B.
  assert (T : truthy (capturedImage s) = true)
    by (rewrite E; destruct h; reflexivity).
  destruct d as [|u d']; [congruence|]. split.
  - unfold findDishes. rewrite T, andb_false_r; simpl.
    eexists; split; [reflexivity|].
    unfold contents; simpl. rewrite B. reflexivity.
  - intros F He. unfold loadMoreSuggestions. rewrite F, He; simpl.
    eexists; split; [reflexivity|].
    unfold contents; simpl. rewrite B. reflexivity.
Qed.

Lemma photo_is_sent_before_the_prompt_witness :
  capturedImage photoSession
  = Some (lit "data:image/png;base64" ++ 44%N :: lit "iVBORw0KGgo=")
  /\ exists call,
       snd (findDishes photoSession) = Some call
       /\ contents call
          = [InlineData (lit "image/jpeg") (lit "iVBORw0KGgo=");
             Text (prompt call)].
Proof.
  assert (E : capturedImage photoSession
              = Some (lit "data:image/png;base64"
                      ++ 44%N :: lit "iVBORw0KGgo="))
    by (vm_compute; reflexivity).
  assert (Hh : ~ In 44%N (lit "data:image/png;base64"))
    by (vm_compute; intuition discriminate).
  assert (Hd : ~ In 44%N (lit "iVBORw0KGgo="))
    by (vm_compute; intuition discriminate).
  assert (Hne : lit "iVBORw0KGgo=" <> []) by (vm_compute; discriminate).
  split; [exact E|].
  exact (proj1 (photo_is_sent_before_the_prompt _ _ _ E Hh Hd Hne)).
Defined.

(** X13. A captured image that yields no payload still opens the search: with
    no ingredient the call goes out with the prompt alone, which then
    names no ingredient. *)
Theorem photo_without_payload_still_searches (s : Session) :
  ingredients s = [] ->
  truthy (capturedImage s) = true ->
  truthy (base64 s) = false ->
  findDisabled s = false
  /\ exists call,
       snd (findDishes s) = Some call
       /\ state (fst (findDishes s)) = suggesting
       /\ call_ingredients call = []
       /\ contents call = [Text (prompt call)]
       /\ prompt call
          = lit "Based on these ingredients: . Suggest 4 unique and delicious dishes I can cook. Focus on maximizing the use of these items. Provide output in JSON format.".
Proof.
  intros Hi T B. unfold findDisabled, findDishes. rewrite T, andb_false_r.
  split; [reflexivity|]. simpl.
  eexists; split; [reflexivity|]. split; [reflexivity|].
  unfold ingNames. rewrite Hi. simpl. split; [reflexivity|]. split.
  - unfold contents; simpl.
    destruct (base64 s) as [[|u d]|]; simpl in *; try reflexivity.
    discriminate.
  - reflexivity.
Qed.

Lemma photo_without_payload_still_searches_witness :
  ingredients emptyFileSession = []
  /\ truthy (capturedImage emptyFileSession) = true
  /\ truthy (base64 emptyFileSession) = false
  /\ findDisabled emptyFileSession = false.
Proof.
  assert (Hi : ingredients emptyFileSession = []) by reflexivity.
  assert (T : truthy (capturedImage emptyFileSession) = true)
    by (vm_compute; reflexivity).
  assert (B : truthy (base64 emptyFileSession) = false)
    by (vm_compute; reflexivity).
  split; [exact Hi|]. split; [exact T|]. split; [exact B|].
  exact (proj1 (photo_without_payload_still_searches _ Hi T B)).
Defined.

End Photo.

(** ** The prompts *)

Section Prompts.

(** X14. The call of a search excludes no dish, and its prompt is the list of
    the ingredient names between two fixed texts, so it names every
    ingredient of the session. *)
Theorem search_prompt_names_ingredients (s : Session)
    (call : SuggestionCall) :
  snd (findDishes s) = Some call ->
  excludeDishes call = []
  /\ prompt call
     = lit "Based on these ingredients: "
       ++ join (lit ", ") (map Ingredient.name (ingredients s))
       ++ lit ". Suggest 4 unique and delicious dishes I can cook. Focus on maximizing the use of these items. Provide output in JSON format."
  /\ forall i, In i (ingredients s) ->
               infix (Ingredient.name i) (prompt call).
Proof.
  unfold findDishes.
  destruct ((length (ingredients s) =? 0) && negb (truthy (capturedImage s)));
    simpl; [discriminate|].
  intros [= <-]. split; [reflexivity|]. split.
  - unfold prompt. cbn [call_ingredients excludeDishes]. unfold ingNames.
    do 2 f_equal. vm_compute. reflexivity.
  - intros i Hi. unfold infix, prompt. cbn [call_ingredients excludeDishes].
    unfold ingNames.
    destruct (join_infix (lit ", ") (Ingredient.name i)
                (map Ingredient.name (ingredients s)) (in_map _ _ _ Hi))
      as (a & b & E).
    rewrite E. exists (lit "Based on these ingredients: " ++ a).
    eexists. rewrite <- !app_assoc. reflexivity.
Qed.

Lemma search_prompt_names_ingredients_witness :
  exists call,
    snd (findDishes photoSession) = Some call
    /\ excludeDishes call = []
    /\ infix (lit "Egg") (prompt call).
Proof.
  pose (call := mkCall (ingNames photoSession) (base64 photoSession) []).
  assert (H : snd (findDishes photoSession) = Some call)
    by (vm_compute; reflexivity).
  destruct (search_prompt_names_ingredients photoSession call H)
    as (E & _ & A).
  exists call. split; [exact H|]. split; [exact E|].
  apply (A (Ingredient.mk (lit "u1") (lit "Egg"))).
  vm_compute. left; reflexivity.
Defined.

(** X15. The recipe call made for a clicked dish asks for that dish, its name
    between quotes, and names every ingredient of the session. *)
Theorem detail_prompt_names_dish (s : Session) (dish : DishSuggestion.t) :
  infix (quote :: DishSuggestion.name dish ++ [quote])
    (detailPrompt (fst (snd (showRecipe dish s)))
       (snd (snd (showRecipe dish s))))
  /\ forall i, In i (ingredients s) ->
       infix (Ingredient.name i)
         (detailPrompt (fst (snd (showRecipe dish s)))
            (snd (snd (showRecipe dish s)))).
Proof.
  unfold showRecipe, detailPrompt, infix; cbn [fst snd]. split.
  - exists (lit "Provide a detailed recipe for "). eexists.
    f_equal. rewrite <- app_comm_cons, <- app_assoc. reflexivity.
  - intros i Hi.
    destruct (join_infix (lit ", ") (Ingredient.name i) (ingNames s)
                (in_map _ _ _ Hi)) as (a & b & E).
    rewrite E.
    exists (lit "Provide a detailed recipe for "
            ++ quote :: DishSuggestion.name dish
            ++ quote :: lit ". I have these ingredients: " ++ a).
    eexists.
    rewrite <- (app_assoc (lit "Provide a detailed recipe for ")).
    f_equal. rewrite <- app_comm_cons. f_equal.
    rewrite <- (app_assoc (DishSuggestion.name dish)). f_equal.
    rewrite <- app_comm_cons. f_equal.
    rewrite <- !app_assoc. reflexivity.
Qed.

End Prompts.

(** ** The sources of a recipe *)

Section Sources.

Lemma webSources_In (chunks : list GroundingChunk) (src : Source.t) :
  In src (webSources chunks) <-> In (mkChunk (Some src)) chunks.
Proof.
  induction chunks as [|[[[ti ur]|]] rest IH]; simpl; [tauto| |].
  - rewrite IH. split; intros [H | H]; auto; left; congruence.
  - rewrite IH. split; [auto | intros [H | H]; [discriminate | exact H]].
Qed.

Lemma webSources_length (chunks : list GroundingChunk) :
  length (webSources chunks) = length (filter hasWeb chunks).
Proof.
  induction chunks as [|[[wb|]] rest IH]; simpl; auto.
Qed.

(** X16. When the answer has grounding chunks, the sources of the recipe are
    the chunks that have a web part, one source each and nothing else,
    whatever sources the parsed answer had; the sources block is then
    shown exactly when some chunk has a web part. Without grounding
    chunks the parsed answer is returned as it is. *)
Theorem sources_are_the_web_chunks (chunks : list GroundingChunk)
    (detail : RecipeDetail.t) :
  (exists srcs,
     RecipeDetail.sources (withSources (Some chunks) detail) = Some srcs
     /\ length srcs = length (filter hasWeb chunks)
     /\ forall src, In src srcs <-> In (mkChunk (Some src)) chunks)
  /\ showsSources (withSources (Some chunks) detail) = existsb hasWeb chunks
  /\ withSources None detail = detail.
Proof.
  split; [|split; [|reflexivity]].
  - exists (webSources chunks). split; [reflexivity|].
    split; [apply webSources_length | apply webSources_In].
  - unfold showsSources; simpl.
    induction chunks as [|[[wb|]] rest IH]; simpl; auto.
Qed.

End Sources.

(** ** Answers that come late *)

Section LateAnswers.

(** X17. No call is cancelled by starting over: a pagination call in
    flight while the recipe screen is rendered answers after the
    start-over button into the new session, whose input screen then holds
    the dishes received and no other. *)
Theorem late_page_lands_after_start_over (w : World)
    (res : list DishSuggestion.t) :
  reachable w ->
  renders recipe (session w) = true ->
  0 < moreCalls w ->
  res <> [] ->
  exists w',
    run [StartOver; MoreSettled (Fulfilled res)] w = Some w'
    /\ state (session w') = input
    /\ ingredients (session w') = []
    /\ suggestions (session w') = res
    /\ isFetchingMore (session w') = false
    /\ moreCalls w' = 0.
Proof.
  intros R S N Hres. destruct (reachable_Inv w R) as (I2 & _).
  destruct w as [[st ing iv sg sr er ci fm he] a b c d]; simpl in *.
  destruct st; try discriminate S.
  destruct sr as [r|]; [|discriminate S].
  destruct b as [|n]; [lia|].
  destruct fm; [|discriminate]. injection I2 as ->.
  destruct res as [|x rest]; [congruence|].
  eexists; split; [reflexivity|]. simpl. auto.
Qed.

Lemma late_page_lands_after_start_over_witness :
  reachable (after toRecipe)
  /\ renders recipe (session (after toRecipe)) = true
  /\ 0 < moreCalls (after toRecipe)
  /\ [frittata] <> []
  /\ exists w',
       run [StartOver; MoreSettled (Fulfilled [frittata])] (after toRecipe)
       = Some w'
       /\ state (session w') = input
       /\ suggestions (session w') = [frittata].
Proof.
  assert (R : reachable (after toRecipe))
    by (exists toRecipe; vm_compute; reflexivity).
  assert (S : renders recipe (session (after toRecipe)) = true)
    by (vm_compute; reflexivity).
  assert (N : 0 < moreCalls (after toRecipe)) by (vm_compute; lia).
  assert (D : [frittata] <> []) by discriminate.
  split; [exact R|]. split; [exact S|]. split; [exact N|]. split; [exact D|].
  destruct (late_page_lands_after_start_over _ [frittata] R S N D)
    as (w' & H & St & _ & Sg & _).
  exists w'. auto.
Defined.

End LateAnswers.

(** ** The observer and the render it belongs to *)

Section Observer.

(** When the effect runs after every event, a notification is handled by
    [loadMoreSuggestions] on the session as it is: [step] is [pageStep]
    followed by [Render]. *)
Lemma step_is_pageStep_rendered (e : Event) (w : World) :
  pageRun [Handle e; Render] (rendered w)
  = match step e w with
    | Some w' => Some (rendered w')
    | None => None
    end.
Proof.
  destruct e;
    try (cbn -[step effect]; destruct (step _ w); reflexivity).
  destruct w as [s a b c d]. unfold rendered, effect, step, renders; simpl.
  destruct (state s); simpl; try reflexivity.
  unfold loadMoreSuggestions_of, loadMoreSuggestions.
  destruct (isFetchingMore s || hasReachedEnd s); reflexivity.
Qed.

(** X19. A notification of the sentinel is judged by the flags of the
    render its observer belongs to, not by the session: when both are
    down there, it raises [isFetchingMore] in the session and issues one
    more call, which excludes the dishes of that render, and the observer
    stays the same; when one is up there, it issues nothing and changes
    nothing. *)
Theorem notification_reads_its_render (p : Page) (closure : Session) :
  observer p = Some closure ->
  (isFetchingMore closure = false -> hasReachedEnd closure = false ->
   exists p' call,
     pageStep (Handle SentinelSeen) p = Some p'
     /\ snd (loadMoreSuggestions_of closure (session (world p))) = Some call
     /\ excludeDishes call = map DishSuggestion.name (suggestions closure)
     /\ session (world p') = setIsFetchingMore true (session (world p))
     /\ moreCalls (world p') = S (moreCalls (world p))
     /\ observer p' = Some closure)
  /\ (isFetchingMore closure = true \/ hasReachedEnd closure = true ->
      pageStep (Handle SentinelSeen) p = Some p).
Proof.
  intros O. destruct p as [[s a b c d] o]; simpl in *. subst o.
  unfold loadMoreSuggestions_of. split.
  - intros F E. rewrite F, E; simpl.
    do 2 eexists. repeat (split; [reflexivity|]). reflexivity.
  - intros H.
    assert (G : isFetchingMore closure || hasReachedEnd closure = true)
      by (destruct H as [-> | ->]; [reflexivity | apply orb_true_r]).
    rewrite G. reflexivity.
Qed.

Lemma notification_reads_its_render_witness :
  observer (rendered (after toResults)) = Some (session (after toResults))
  /\ exists p',
       pageStep (Handle SentinelSeen) (rendered (after toResults)) = Some p'
       /\ moreCalls (world p') = 1
       /\ observer p' = Some (session (after toResults)).
Proof.
  assert (O : observer (rendered (after toResults))
              = Some (session (after toResults)))
    by (vm_compute; reflexivity).
  split; [exact O|].
  destruct (proj1 (notification_reads_its_render _ _ O))
    as (p' & call & St & _ & _ & _ & M & O');
    [vm_compute; reflexivity | vm_compute; reflexivity |].
  exists p'. split; [exact St|]. split; [|exact O'].
  rewrite M. vm_compute; reflexivity.
Defined.

(** C4. The guard does not hold back a trigger that comes before the
    effect has run again: on the results screen two notifications that
    reach the observer of one render both pass the guard, the second
    while [isFetchingMore] is up in the session, and two pagination calls
    are in flight. *)
Theorem second_notification_issues_second_call :
  exists p1 p2,
    pageRun [Render; Handle SentinelSeen] (mkPage (after toResults) None)
    = Some p1
    /\ isFetchingMore (session (world p1)) = true
    /\ moreCalls (world p1) = 1
    /\ pageStep (Handle SentinelSeen) p1 = Some p2
    /\ pageRun twoNotifications (mkPage (after toResults) None) = Some p2
    /\ moreCalls (world p2) = 2
    /\ ~ moreCalls (world p2) <= 1.
Proof.
  do 2 eexists.
  split; [vm_compute; reflexivity|].
  split; [reflexivity|]. split; [reflexivity|].
  split; [vm_compute; reflexivity|].
  split; [vm_compute; reflexivity|].
  split; [reflexivity | simpl; lia].
Qed.

End Observer.

(** ** An answer that is no recipe *)

Section NullRecipe.

Lemma stranded_step (e : Event) (w w' : World) :
  stranded w -> step e w = Some w' -> stranded w' /\ isSettling e = true.
Proof.
  destruct w as [[st ing iv sg sr er ci fm he] a b c d].
  unfold stranded; simpl. intros (-> & -> & -> & ->) H.
  destruct e; open_step H; crunch_step; simpl;
    repeat match goal with
      | |- context [match ?r with Fulfilled _ => _ | Rejected => _ end] =>
          destruct r
      | |- context [if ?n =? ?m then _ else _] => destruct (n =? m)
      end; simpl; auto.
Qed.

Lemma stranded_renders_nothing (w : World) (scr : AppState) :
  stranded w -> renders scr (session w) = false.
Proof.
  intros (S & R & _). unfold renders. rewrite S, R.
  destruct scr; reflexivity.
Qed.

(** X18. A detail answer that parsed to [null] is returned as it is when
    there are no grounding chunks and is stored as the selected recipe:
    the screen is [recipe] without a recipe, and from then on no screen
    block is rendered and no control is taken, whatever settles later.
    With grounding chunks the same answer rejects the call, which leads
    back to the results screen with the detail error. *)
Theorem null_recipe_strands_the_session (w : World) :
  reachable w ->
  0 < detailCalls w ->
  (exists w',
     step (DetailSettled (getRecipeDetail_settles None None)) w = Some w'
     /\ state (session w') = recipe
     /\ selectedRecipe (session w') = None
     /\ forall es w'',
          run es w' = Some w'' ->
          (forall scr, renders scr (session w'') = false)
          /\ forall e w3, step e w'' = Some w3 -> isSettling e = true)
  /\ forall chunks,
       exists w',
         step (DetailSettled (getRecipeDetail_settles None (Some chunks))) w
         = Some w'
         /\ state (session w') = results
         /\ error (session w') = Some detailFailedMessage.
Proof.
  intros R N. destruct (reachable_Inv w R) as (_ & _ & I4 & I5).
  destruct w as [[st ing iv sg sr er ci fm he] a b c d]; simpl in *.
  destruct c as [|n]; [lia|].
  assert (st = loading_recipe) as ->
    by (destruct st; simpl in I5; congruence).
  simpl in *. injection I5 as ->. subst a. split.
  - eexists; split; [reflexivity|]. simpl.
    split; [reflexivity|]. split; [reflexivity|].
    assert (J : forall es w0 w'', stranded w0 -> run es w0 = Some w'' ->
                                  stranded w'').
    { induction es as [|e es IH]; simpl; intros w0 w'' J0 H.
      - injection H as <-; exact J0.
      - destruct (step e w0) as [w1|] eqn:E; [|discriminate].
        apply (IH w1 w''); [|exact H].
        exact (proj1 (stranded_step e w0 w1 J0 E)). }
    intros es w'' H.
    assert (J' : stranded w'')
      by (eapply J; [|exact H]; repeat split).
    split.
    + intros scr. apply stranded_renders_nothing, J'.
    + intros e w3 E. exact (proj2 (stranded_step e w'' w3 J' E)).
  - intros chunks. eexists; split; [reflexivity|]. simpl. auto.
Qed.

Lemma null_recipe_strands_the_session_witness :
  reachable (after (toResults ++ [DishClicked 0]))
  /\ 0 < detailCalls (after (toResults ++ [DishClicked 0]))
  /\ exists w',
       step (DetailSettled (Fulfilled None))
         (after (toResults ++ [DishClicked 0])) = Some w'
       /\ state (session w') = recipe
       /\ selectedRecipe (session w') = None
       /\ step StartOver w' = None.
Proof.
  assert (R : reachable (after (toResults ++ [DishClicked 0])))
    by (exists (toResults ++ [DishClicked 0]); vm_compute; reflexivity).
  assert (N : 0 < detailCalls (after (toResults ++ [DishClicked 0])))
    by (vm_compute; lia).
  split; [exact R|]. split; [exact N|].
  destruct (proj1 (null_recipe_strands_the_session _ R N))
    as (w' & St & S & Sel & Later).
  exists w'. split; [exact St|]. split; [exact S|]. split; [exact Sel|].
  destruct (step StartOver w') as [w3|] eqn:E; [|reflexivity].
  discriminate (proj2 (Later [] w' eq_refl) StartOver w3 E).
Defined.

End NullRecipe.
